(** * Arrow's theorem as a satisfiability query: the formulas built by main.py

    main.py builds seven first-order sentences over the integers with the
    z3 Python bindings and hands their conjunction to the solver.  The
    values the program computes are formula terms, so the development has
    two layers:

    - [Z3]: the fragment of the z3 expression language that main.py uses
      (integer constants and literals, the three declared symbols [p], [w]
      and [swap], the connectives and the quantifiers), with its free
      variables and its Tarski semantics over [Z];
    - the program itself: every builder of main.py as a definition that
      returns such a term, and [introduce_constants] as a stateful
      computation over the iterator object it consumes. *)

From Stdlib Require Import ZArith List String Bool Lia.
Import ListNotations.

Open Scope string_scope.
Open Scope Z_scope.

Set Warnings "-register-all".

(** ** The z3 expression fragment *)

Module Z3.

(** Integer-sorted expressions: [Int("x")], a Python integer coerced to a
    numeral, and an application of the declared function [swap]. *)
Inductive ArithRef : Type :=
| Int (name : string)
| IntVal (n : Z)
| App_swap (y a b s : ArithRef).

(** Boolean-sorted expressions.  [EqI] and [EqB] are both what Python's
    [==] builds: on integer arguments an equation, on boolean arguments an
    equivalence.  [And] and [Or] take any number of arguments, none
    included. *)
Inductive BoolRef : Type :=
| App_p (x a b s : ArithRef)
| App_w (a b s : ArithRef)
| EqI (l r : ArithRef)
| EqB (l r : BoolRef)
| And (args : list BoolRef)
| Or (args : list BoolRef)
| Not (arg : BoolRef)
| Implies (l r : BoolRef)
| ForAll (vs : list string) (body : BoolRef)
| Exists (vs : list string) (body : BoolRef).

(** Python passes [x] where a term is expected and [1] where a numeral is. *)
Coercion Int : string >-> ArithRef.
Coercion IntVal : Z >-> ArithRef.

(** *** Free variables *)

Fixpoint term_vars (t : ArithRef) : list string :=
  match t with
  | Int name => [name]
  | IntVal _ => []
  | App_swap y a b s => term_vars y ++ term_vars a ++ term_vars b ++ term_vars s
  end.

Definition remove_all (vs : list string) (l : list string) : list string :=
  filter (fun v => negb (existsb (String.eqb v) vs)) l.

Fixpoint free_vars (e : BoolRef) : list string :=
  match e with
  | App_p x a b s => term_vars x ++ term_vars a ++ term_vars b ++ term_vars s
  | App_w a b s => term_vars a ++ term_vars b ++ term_vars s
  | EqI l r => term_vars l ++ term_vars r
  | EqB l r => free_vars l ++ free_vars r
  | And args => flat_map free_vars args
  | Or args => flat_map free_vars args
  | Not arg => free_vars arg
  | Implies l r => free_vars l ++ free_vars r
  | ForAll vs body => remove_all vs (free_vars body)
  | Exists vs body => remove_all vs (free_vars body)
  end.

(** *** Semantics over the integers *)

(** A structure interprets the declared symbols as total functions on the
    integers and gives a value to every integer constant; the solver's
    model of a formula is such a structure. *)
Record Model : Type := {
  interp_p : Z -> Z -> Z -> Z -> bool;
  interp_w : Z -> Z -> Z -> bool;
  interp_swap : Z -> Z -> Z -> Z -> Z;
  interp_const : string -> Z
}.

Definition valuation : Type := string -> Z.

Definition update (env : valuation) (v : string) (z : Z) : valuation :=
  fun v' => if String.eqb v' v then z else env v'.

Fixpoint eval (M : Model) (env : valuation) (t : ArithRef) : Z :=
  match t with
  | Int name => env name
  | IntVal n => n
  | App_swap y a b s =>
      interp_swap M (eval M env y) (eval M env a) (eval M env b) (eval M env s)
  end.

Fixpoint forall_vars (vs : list string) (env : valuation)
    (k : valuation -> Prop) : Prop :=
  match vs with
  | [] => k env
  | v :: vs' => forall z : Z, forall_vars vs' (update env v z) k
  end.

Fixpoint exists_vars (vs : list string) (env : valuation)
    (k : valuation -> Prop) : Prop :=
  match vs with
  | [] => k env
  | v :: vs' => exists z : Z, exists_vars vs' (update env v z) k
  end.

Fixpoint holds (M : Model) (env : valuation) (e : BoolRef) : Prop :=
  match e with
  | App_p x a b s =>
      interp_p M (eval M env x) (eval M env a) (eval M env b) (eval M env s) = true
  | App_w a b s =>
      interp_w M (eval M env a) (eval M env b) (eval M env s) = true
  | EqI l r => eval M env l = eval M env r
  | EqB l r => holds M env l <-> holds M env r
  | And args =>
      (fix all (l : list BoolRef) : Prop :=
         match l with
         | [] => True
         | e' :: l' => holds M env e' /\ all l'
         end) args
  | Or args =>
      (fix any (l : list BoolRef) : Prop :=
         match l with
         | [] => False
         | e' :: l' => holds M env e' \/ any l'
         end) args
  | Not arg => ~ holds M env arg
  | Implies l r => holds M env l -> holds M env r
  | ForAll vs body => forall_vars vs env (fun env' => holds M env' body)
  | Exists vs body => exists_vars vs env (fun env' => holds M env' body)
  end.

(** [M] is a model of [e]: constants not bound in [e] take the value the
    structure gives them. *)
Definition models (M : Model) (e : BoolRef) : Prop :=
  holds M (interp_const M) e.

Definition satisfiable (e : BoolRef) : Prop := exists M : Model, models M e.

Definition unsatisfiable (e : BoolRef) : Prop := forall M : Model, ~ models M e.

Definition equivalent (e1 e2 : BoolRef) : Prop :=
  forall (M : Model) (env : valuation), holds M env e1 <-> holds M env e2.

End Z3.

Import Z3.

(** ** main.py *)

Definition x : string := "x".
Definition a : string := "a".
Definition b : string := "b".
Definition c : string := "c".
Definition s : string := "s".
Definition s1 : string := "s1".
Definition s2 : string := "s2".

Definition get_p : ArithRef -> ArithRef -> ArithRef -> ArithRef -> BoolRef := App_p.
Definition get_w : ArithRef -> ArithRef -> ArithRef -> BoolRef := App_w.

Definition p := get_p.
Definition w := get_w.

Definition get_linearity : BoolRef :=
  let first := Or [p x a b s; p x b a s; EqI a b] in
  let second := And [Not (p x a a s); Not (w a a s)] in
  let third := Or [w a b s; w b a s; EqI a b] in
  let fourth := Implies (And [p x a b s; p x b c s]) (p x a c s) in
  let fifth := Implies (And [w a b s; w b c s]) (w a c s) in
  ForAll [x; a; b; s; c] (And [first; second; third; fourth; fifth]).

Definition individual_prefs : BoolRef :=
  let assumption := ForAll [x; a; b] (EqB (p x a b s1) (p x a b s2)) in
  let result := ForAll [a; b] (EqB (w a b s1) (w a b s2)) in
  ForAll [s1; s2] (Implies assumption result).

Definition get_unanimity : BoolRef :=
  let assumption := ForAll [x] (p x a b s) in
  ForAll [a; b; s] (Implies assumption (w a b s)).

Definition get_nondictatorship : BoolRef :=
  let condition := EqB (p x a b s) (w a b s) in
  Not (Exists [x] (ForAll [s; a; b] condition)).

Definition get_iia : BoolRef :=
  let assumption := ForAll [x] (EqB (p x a b s1) (p x a b s2)) in
  ForAll [a; b; s1; s2] (Implies assumption (EqB (w a b s1) (w a b s2))).

Definition get_swap : ArithRef -> ArithRef -> ArithRef -> ArithRef -> ArithRef :=
  App_swap.

Definition swap := get_swap.

(** The sub-expressions of [get_swap_condition], named as its locals. *)
Module SwapCondition.
Definition a1 : string := "a1".
Definition b1 : string := "b1".
Definition y : string := "y".

Definition basic : BoolRef := EqB (p x a b (swap x a b s)) (p x b a s).
Definition swap_part : BoolRef := EqB (p x a b (swap y a1 b1 s)) (p x a b s).
Definition neq_part : BoolRef := Or [Not (EqI x y); And []].
Definition not_affecting : BoolRef := And [swap_part; neq_part].
Definition first_g : BoolRef := And [EqI x y; EqI a a1; EqI b b1; p x b a s].
Definition second_g : BoolRef :=
  And [EqI x y; EqI a a1; Not (EqI b b1); Not (EqI b a); p x b1 b s].
Definition third_g : BoolRef :=
  And [EqI x y; EqI b b1; Not (EqI a a1); Not (EqI b a); p x a a1 s].
End SwapCondition.

Definition get_swap_condition : BoolRef :=
  let basic := SwapCondition.basic in
  let a1 := SwapCondition.a1 in
  let b1 := SwapCondition.b1 in
  let y := SwapCondition.y in
  let not_affecting := SwapCondition.not_affecting in
  let first_g := SwapCondition.first_g in
  let second_g := SwapCondition.second_g in
  let third_g := SwapCondition.third_g in
  ForAll [x; y; a; a1; b; b1; s]
    (And [basic; Or [not_affecting; first_g; second_g; third_g]]).

(** ** The seed-state generator *)

(** [itertools.permutations(l)]: the orderings of [l] in the order the
    library yields them, lexicographic in the positions of [l]. *)
Module itertools.

Fixpoint picks {A : Type} (l : list A) : list (A * list A) :=
  match l with
  | [] => []
  | h :: t => (h, t) :: map (fun '(v, r) => (v, h :: r)) (picks t)
  end.

Fixpoint arrangements {A : Type} (n : nat) (l : list A) : list (list A) :=
  match n with
  | O => [[]]
  | S n' => flat_map (fun '(v, r) => map (cons v) (arrangements n' r)) (picks l)
  end.

Definition permutations {A : Type} (l : list A) : list (list A) :=
  arrangements (List.length l) l.

End itertools.

(** [introduce_constants] runs over three local variables.  [permutations]
    is one iterator object: the store keeps the items it has not yielded
    yet, and both [for] statements of the function draw from it. *)
Record locals : Type := {
  permutations : list (list Z);
  constant_conditions : list BoolRef;
  curr_state : Z
}.

Inductive outcome (A : Type) : Type :=
| Done (v : A)
| IndexError
| OutOfFuel.

Arguments Done {A} v.
Arguments IndexError {A}.
Arguments OutOfFuel {A}.

Definition Py (A : Type) : Type := locals -> outcome (A * locals).

Definition ret {A : Type} (v : A) : Py A := fun st => Done (v, st).

Definition bind {A B : Type} (m : Py A) (k : A -> Py B) : Py B :=
  fun st =>
    match m st with
    | Done (v, st') => k v st'
    | IndexError => IndexError
    | OutOfFuel => OutOfFuel
    end.

Notation "v <- m ;; k" := (bind m (fun v => k))
  (at level 61, m at next level, right associativity).
Notation "m ;; k" := (bind m (fun _ => k))
  (at level 61, right associativity).

(** [next(permutations)]: the next pending item, [None] on StopIteration. *)
Definition next_permutation : Py (option (list Z)) :=
  fun st =>
    match permutations st with
    | [] => Done (None, st)
    | v :: rest =>
        Done (Some v, {| permutations := rest;
                         constant_conditions := constant_conditions st;
                         curr_state := curr_state st |})
    end.

(** [curr_state += 1], returning the new value. *)
Definition incr_curr_state : Py Z :=
  fun st =>
    let n := curr_state st + 1 in
    Done (n, {| permutations := permutations st;
                constant_conditions := constant_conditions st;
                curr_state := n |}).

(** [constant_conditions.append(e)] *)
Definition append_condition (e : BoolRef) : Py unit :=
  fun st =>
    Done (tt, {| permutations := permutations st;
                 constant_conditions := constant_conditions st ++ [e];
                 curr_state := curr_state st |}).

Definition get_conditions : Py (list BoolRef) :=
  fun st => Done (constant_conditions st, st).

(** [t[i]] on a tuple. *)
Definition getitem (t : list Z) (i : nat) : Py Z :=
  fun st =>
    match nth_error t i with
    | Some v => Done (v, st)
    | None => IndexError
    end.

(** [for v in permutations: body]: ask the iterator for its next item, run
    the body, repeat; stop when the iterator is exhausted. *)
Fixpoint for_in_permutations (fuel : nat) (body : list Z -> Py unit) : Py unit :=
  match fuel with
  | O => fun _ => OutOfFuel
  | S fuel' =>
      item <- next_permutation ;;
      match item with
      | None => ret tt
      | Some v => body v ;; for_in_permutations fuel' body
      end
  end.

Definition introduce_constants_body (fuel : nat) : Py BoolRef :=
  for_in_permutations fuel (fun first_perm =>
    for_in_permutations fuel (fun second_perm =>
      n <- incr_curr_state ;;
      f0 <- getitem first_perm 0 ;;
      f1 <- getitem first_perm 1 ;;
      f2 <- getitem first_perm 2 ;;
      let first_agent := And [p 1 f0 f1 n; p 1 f0 f2 n; p 1 f1 f2 n] in
      g0 <- getitem second_perm 0 ;;
      g1 <- getitem second_perm 1 ;;
      g2 <- getitem second_perm 2 ;;
      let second_agent := And [p 2 g0 g1 n; p 2 g0 g2 n; p 2 g1 g2 n] in
      append_condition (And [first_agent; second_agent]))) ;;
  conds <- get_conditions ;;
  ret (And conds).

Definition introduce_constants (fuel : nat) : outcome BoolRef :=
  match
    introduce_constants_body fuel
      {| permutations := itertools.permutations [1; 2; 3];
         constant_conditions := [];
         curr_state := 0 |}
  with
  | Done (e, _) => Done e
  | IndexError => IndexError
  | OutOfFuel => OutOfFuel
  end.

(** ** The query *)

(** The formula [main] passes to [solve], given the seed facts. *)
Definition main_sentence (constants : BoolRef) : BoolRef :=
  let linearity := get_linearity in
  let ind := individual_prefs in
  let unanimity := get_unanimity in
  let nondictatorship := get_nondictatorship in
  let iia := get_iia in
  let swap_cond := get_swap_condition in
  And [linearity; ind; unanimity; nondictatorship; iia; swap_cond; constants].

Definition main (fuel : nat) : outcome BoolRef :=
  match introduce_constants fuel with
  | Done constants => Done (main_sentence constants)
  | IndexError => IndexError
  | OutOfFuel => OutOfFuel
  end.

(** The same conjunction with the non-dictatorship sentence left out. *)
Definition sentence_without_nondictatorship (constants : BoolRef) : BoolRef :=
  And [get_linearity; individual_prefs; get_unanimity; get_iia;
       get_swap_condition; constants].

(** * Vocabulary of the properties *)

(** ** Seed facts *)

(** The conjunct appended for state [n] when agent 1 ranks [f0 > f1 > f2]
    and agent 2 ranks [g0 > g1 > g2]. *)
Definition profile (n f0 f1 f2 g0 g1 g2 : Z) : BoolRef :=
  And [And [p 1 f0 f1 n; p 1 f0 f2 n; p 1 f1 f2 n];
       And [p 2 g0 g1 n; p 2 g0 g2 n; p 2 g1 g2 n]].

Definition seeded_profiles : list BoolRef :=
  [profile 1  1 2 3  1 3 2;
   profile 2  1 2 3  2 1 3;
   profile 3  1 2 3  2 3 1;
   profile 4  1 2 3  3 1 2;
   profile 5  1 2 3  3 2 1].

(** ** Orders *)

Definition irreflexive (R : Z -> Z -> bool) : Prop :=
  forall a : Z, R a a = false.
Definition antisymmetric (R : Z -> Z -> bool) : Prop :=
  forall a b : Z, ~ (R a b = true /\ R b a = true).
Definition transitive (R : Z -> Z -> bool) : Prop :=
  forall a b c : Z, R a b = true -> R b c = true -> R a c = true.
Definition total (R : Z -> Z -> bool) : Prop :=
  forall a b : Z, R a b = true \/ R b a = true \/ a = b.

Definition strict_total_order (R : Z -> Z -> bool) : Prop :=
  total R /\ antisymmetric R /\ irreflexive R /\ transitive R.

(** ** Two structures

    Used below to show that hypotheses can be met and that a claimed
    consequence can fail. *)

(** Everybody, and society, ranks the alternatives by [<]; [swap] returns
    the state it is given. *)
Definition order_model : Model :=
  {| interp_p := fun _ a b _ => a <? b;
     interp_w := fun a b _ => a <? b;
     interp_swap := fun _ _ _ s => s;
     interp_const := fun _ => 0 |}.

(** In state 0 every [p] fact holds; in any other state agent 0 has lost
    the facts that relate alternative 0 to another alternative.  The one
    swap that leaves state 0 is [swap(0,0,0,0)], which leads to state 1. *)
Definition overlap_model : Model :=
  {| interp_p := fun x a b s =>
       (s =? 0) || negb (x =? 0) || Bool.eqb (a =? 0) (b =? 0);
     interp_w := fun _ _ _ => true;
     interp_swap := fun y a1 b1 s =>
       if (s =? 0) && (y =? 0) && (a1 =? 0) && (b1 =? 0) then 1 else s;
     interp_const := fun _ => 0 |}.

(** ** Induction over formulas and agreement of valuations *)

(** Induction over formulas that reaches the arguments of [And] and [Or]. *)
Section BoolRef_induction.

Variable Q : BoolRef -> Prop.
Hypothesis Q_p : forall x a b s, Q (App_p x a b s).
Hypothesis Q_w : forall a b s, Q (App_w a b s).
Hypothesis Q_eqi : forall l r, Q (EqI l r).
Hypothesis Q_eqb : forall l r, Q l -> Q r -> Q (EqB l r).
Hypothesis Q_and : forall args, Forall Q args -> Q (And args).
Hypothesis Q_or : forall args, Forall Q args -> Q (Or args).
Hypothesis Q_not : forall arg, Q arg -> Q (Not arg).
Hypothesis Q_implies : forall l r, Q l -> Q r -> Q (Implies l r).
Hypothesis Q_forall : forall vs body, Q body -> Q (ForAll vs body).
Hypothesis Q_exists : forall vs body, Q body -> Q (Exists vs body).

Fixpoint BoolRef_nested_ind (e : BoolRef) : Q e :=
  let fix each (l : list BoolRef) : Forall Q l :=
    match l with
    | [] => Forall_nil Q
    | e' :: l' => Forall_cons e' (BoolRef_nested_ind e') (each l')
    end in
  match e with
  | App_p x a b s => Q_p x a b s
  | App_w a b s => Q_w a b s
  | EqI l r => Q_eqi l r
  | EqB l r => Q_eqb l r (BoolRef_nested_ind l) (BoolRef_nested_ind r)
  | And args => Q_and args (each args)
  | Or args => Q_or args (each args)
  | Not arg => Q_not arg (BoolRef_nested_ind arg)
  | Implies l r => Q_implies l r (BoolRef_nested_ind l) (BoolRef_nested_ind r)
  | ForAll vs body => Q_forall vs body (BoolRef_nested_ind body)
  | Exists vs body => Q_exists vs body (BoolRef_nested_ind body)
  end.

End BoolRef_induction.

Definition agree_on (vs : list string) (env env' : valuation) : Prop :=
  forall v, In v vs -> env v = env' v.

(** ** The formula with one conjunct left out *)

Definition sentence_without_swap_condition (constants : BoolRef) : BoolRef :=
  And [get_linearity; individual_prefs; get_unanimity; get_nondictatorship;
       get_iia; constants].

Definition sentence_without_linearity (constants : BoolRef) : BoolRef :=
  And [individual_prefs; get_unanimity; get_nondictatorship; get_iia;
       get_swap_condition; constants].

(** ** Three more structures *)

(** A ranking of the integers that puts [g0], [g1], [g2] in this order on
    the places 1, 2, 3 and leaves every other integer where it is. *)
Definition ballot (g0 g1 g2 z : Z) : Z :=
  if z =? g0 then 1 else if z =? g1 then 2 else if z =? g2 then 3 else z.

(** Every ranking of [profile_model] compares keys: agent 1 uses the
    integers as they are; agent 2 uses, in the states 1 to 5, the ballot
    seeded there, in state 0 the reversed order and elsewhere the order of
    agent 1; every other agent uses the order in state 0 and its reverse
    elsewhere.  Society follows agent 1 except in state 0, where it
    follows agent 2. *)
Definition second_agent_key (s z : Z) : Z :=
  if s =? 0 then - z
  else if s =? 1 then ballot 1 3 2 z
  else if s =? 2 then ballot 2 1 3 z
  else if s =? 3 then ballot 2 3 1 z
  else if s =? 4 then ballot 3 1 2 z
  else if s =? 5 then ballot 3 2 1 z
  else z.

Definition agent_key (x s z : Z) : Z :=
  if x =? 1 then z
  else if x =? 2 then second_agent_key s z
  else if s =? 0 then z else - z.

Definition welfare_key (s z : Z) : Z := if s =? 0 then - z else z.

Definition profile_model : Model :=
  {| interp_p := fun x a b s => agent_key x s a <? agent_key x s b;
     interp_w := fun a b s => welfare_key s a <? welfare_key s b;
     interp_swap := fun _ _ _ s => s;
     interp_const := fun _ => 0 |}.

(** Agent 0 prefers nothing to anything, every other agent prefers
    everything to everything, in every state; society ranks by [<]. *)
Definition indifferent_model : Model :=
  {| interp_p := fun x _ _ _ => negb (x =? 0);
     interp_w := fun a b _ => a <? b;
     interp_swap := fun _ _ _ s => s;
     interp_const := fun _ => 0 |}.

(** State 0 differs from the other states in the facts about alternative 1
    only, and society's relation is full in state 0 and empty elsewhere. *)
Definition label_model : Model :=
  {| interp_p := fun _ a _ s => (s =? 0) && (a =? 1);
     interp_w := fun _ _ s => s =? 0;
     interp_swap := fun _ _ _ s => s;
     interp_const := fun _ => 0 |}.

(** ** The loop nest of [introduce_constants] on any iterator content *)

(** The body of the inner loop. *)
Definition seed_body (first_perm second_perm : list Z) : Py unit :=
  n <- incr_curr_state ;;
  f0 <- getitem first_perm 0 ;;
  f1 <- getitem first_perm 1 ;;
  f2 <- getitem first_perm 2 ;;
  let first_agent := And [p 1 f0 f1 n; p 1 f0 f2 n; p 1 f1 f2 n] in
  g0 <- getitem second_perm 0 ;;
  g1 <- getitem second_perm 1 ;;
  g2 <- getitem second_perm 2 ;;
  let second_agent := And [p 2 g0 g1 n; p 2 g0 g2 n; p 2 g1 g2 n] in
  append_condition (And [first_agent; second_agent]).

Definition profile_of (n : Z) (first_perm second_perm : list Z) : BoolRef :=
  profile n
    (nth 0 first_perm 0) (nth 1 first_perm 0) (nth 2 first_perm 0)
    (nth 0 second_perm 0) (nth 1 second_perm 0) (nth 2 second_perm 0).

(** One profile per item of [rest], all with [first_perm] for agent 1,
    numbered from [n + 1]. *)
Fixpoint profiles_from (n : Z) (first_perm : list Z) (rest : list (list Z))
    : list BoolRef :=
  match rest with
  | [] => []
  | second_perm :: rest' =>
      profile_of (n + 1) first_perm second_perm
        :: profiles_from (n + 1) first_perm rest'
  end.

Definition generated_profiles (n : Z) (pending : list (list Z)) : list BoolRef :=
  match pending with
  | [] => []
  | first_perm :: rest => profiles_from n first_perm rest
  end.

Definition long_enough (t : list Z) : Prop := (3 <= List.length t)%nat.

(** * Properties *)

(** ** What the sentences say in a structure *)

Section Readings.

Variable M : Model.

Local Abbreviation P := (interp_p M).
Local Abbreviation W := (interp_w M).
Local Abbreviation SW := (interp_swap M).

Lemma linearity_reading :
  models M get_linearity <->
  forall x a b s c : Z,
    (P x a b s = true \/ P x b a s = true \/ a = b) /\
    (P x a a s = false /\ W a a s = false) /\
    (W a b s = true \/ W b a s = true \/ a = b) /\
    (P x a b s = true -> P x b c s = true -> P x a c s = true) /\
    (W a b s = true -> W b c s = true -> W a c s = true).
Proof.
  unfold models; cbn; split; intros H x a b s c;
    specialize (H x a b s c);
    rewrite <- !not_true_iff_false in *; tauto.
Qed.

Lemma individual_prefs_reading :
  models M individual_prefs <->
  forall s1 s2 : Z,
    (forall x a b : Z, P x a b s1 = true <-> P x a b s2 = true) ->
    forall a b : Z, W a b s1 = true <-> W a b s2 = true.
Proof. unfold models; cbn; tauto. Qed.

Lemma unanimity_reading :
  models M get_unanimity <->
  forall a b s : Z, (forall x : Z, P x a b s = true) -> W a b s = true.
Proof. unfold models; cbn; tauto. Qed.

Lemma nondictatorship_reading :
  models M get_nondictatorship <->
  ~ exists x : Z, forall s a b : Z, P x a b s = true <-> W a b s = true.
Proof. unfold models; cbn; tauto. Qed.

Lemma iia_reading :
  models M get_iia <->
  forall a b s1 s2 : Z,
    (forall x : Z, P x a b s1 = true <-> P x a b s2 = true) ->
    (W a b s1 = true <-> W a b s2 = true).
Proof. unfold models; cbn; tauto. Qed.

Lemma swap_condition_reading :
  models M get_swap_condition <->
  forall x y a a1 b b1 s : Z,
    (P x a b (SW x a b s) = true <-> P x b a s = true) /\
    (((P x a b (SW y a1 b1 s) = true <-> P x a b s = true) /\
      (x <> y \/ True)) \/
     (x = y /\ a = a1 /\ b = b1 /\ P x b a s = true) \/
     (x = y /\ a = a1 /\ b <> b1 /\ b <> a /\ P x b1 b s = true) \/
     (x = y /\ b = b1 /\ a <> a1 /\ b <> a /\ P x a a1 s = true)).
Proof.
  unfold models; cbn; split; intros H x y a a1 b b1 s;
    specialize (H x y a a1 b b1 s); tauto.
Qed.

Lemma swap_condition_basic :
  models M get_swap_condition ->
  forall x a b s : Z, P x a b (SW x a b s) = true <-> P x b a s = true.
Proof.
  intros H0 x a b s.
  destruct (proj1 swap_condition_reading H0 x x a a b b s) as [Hbasic _].
  exact Hbasic.
Qed.

(** The sentence of [get_swap_condition] forces every agent's relation to
    be symmetric: at [y = x], [a1 = a], [b1 = b] the only disjuncts left
    are the frame equivalence and [first_g], and each of them, next to
    [basic], turns [p(x,a,b,s)] into [p(x,b,a,s)]. *)
Lemma swap_condition_symmetric :
  models M get_swap_condition ->
  forall x a b s : Z, P x a b s = P x b a s.
Proof.
  intros H0; pose proof (proj1 swap_condition_reading H0) as H; clear H0.
  assert (Himp : forall x a b s, P x a b s = true -> P x b a s = true).
  { intros x a b s Hab.
    destruct (H x x a a b b s) as [Hbasic [[Hframe _] | [Hg | [Hg | Hg]]]].
    - apply Hbasic, Hframe, Hab.
    - apply Hg.
    - destruct Hg as (_ & _ & Hne & _); contradiction.
    - destruct Hg as (_ & _ & Hne & _); contradiction. }
  intros x a b s.
  destruct (P x a b s) eqn:Hab, (P x b a s) eqn:Hba; try reflexivity.
  - apply Himp in Hab; congruence.
  - apply Himp in Hba; congruence.
Qed.

(** No structure satisfies the linearity sentence and the swap sentence
    together: linearity makes agent 0 rank 0 and 1 one way or the other,
    the swap sentence then gives the opposite ranking as well, and
    transitivity closes the cycle into [p(x,a,a,s)]. *)
Lemma linearity_swap_condition_clash :
  models M get_linearity -> models M get_swap_condition -> False.
Proof.
  intros Hlin0 Hswap; pose proof (proj1 linearity_reading Hlin0) as Hlin.
  pose proof (swap_condition_symmetric Hswap) as Hsym.
  assert (Hcyc : forall a b, P 0 a b 0 = true -> False).
  { intros a b Hab.
    destruct (Hlin 0 a b 0 a) as (_ & [Hirr _] & _ & Htrans & _).
    rewrite Htrans in Hirr; [discriminate | exact Hab |].
    rewrite <- Hsym; exact Hab. }
  destruct (Hlin 0 0 1 0 0) as ([H01 | [H10 | Heq]] & _).
  - exact (Hcyc _ _ H01).
  - exact (Hcyc _ _ H10).
  - discriminate Heq.
Qed.

End Readings.

(** ** What the two structures satisfy *)

Lemma order_model_linearity : models order_model get_linearity.
Proof.
  apply linearity_reading; cbn; intros x a b s c.
  rewrite !Z.ltb_lt, !Z.ltb_ge; lia.
Qed.

Lemma order_model_iia : models order_model get_iia.
Proof. apply iia_reading; cbn; tauto. Qed.

Lemma overlap_model_swap_condition : models overlap_model get_swap_condition.
Proof.
  apply swap_condition_reading; cbn; intros x y a a1 b b1 s.
  destruct (Z.eqb_spec s 0) as [-> | Hs]; cbn.
  - destruct (Z.eqb_spec x 0) as [-> | Hx],
             (Z.eqb_spec y 0) as [-> | Hy],
             (Z.eqb_spec a 0) as [-> | Ha],
             (Z.eqb_spec b 0) as [-> | Hb],
             (Z.eqb_spec a1 0) as [-> | Ha1],
             (Z.eqb_spec b1 0) as [-> | Hb1]; cbn;
      try (destruct (Z.eqb_spec a 0); [contradiction |]);
      try (destruct (Z.eqb_spec b 0); [contradiction |]);
      try (destruct (Z.eqb_spec x 0); [contradiction |]);
      cbn; intuition (try congruence; try lia).
  - assert (Hs' : (s =? 0) = false) by (apply Z.eqb_neq; exact Hs).
    rewrite !Hs'; cbn.
    destruct (x =? 0), (a =? 0), (b =? 0); cbn; tauto.
Qed.

(** ** Free variables and the value of a formula *)

Lemma agree_on_app vs1 vs2 env env' :
  agree_on (vs1 ++ vs2) env env' <-> agree_on vs1 env env' /\ agree_on vs2 env env'.
Proof.
  unfold agree_on; split.
  - intros H; split; intros v Hv; apply H, in_or_app; auto.
  - intros [H1 H2] v Hv; apply in_app_or in Hv; destruct Hv; auto.
Qed.

Lemma eval_agree M env env' t :
  agree_on (term_vars t) env env' -> eval M env t = eval M env' t.
Proof.
  induction t as [name | n | y IHy a IHa b IHb s IHs]; cbn; intros H.
  - apply H; left; reflexivity.
  - reflexivity.
  - repeat (apply agree_on_app in H; destruct H as [? H]).
    rewrite IHy, IHa, IHb, IHs by assumption; reflexivity.
Qed.

Lemma in_remove_all v vs l :
  In v (remove_all vs l) <-> In v l /\ existsb (String.eqb v) vs = false.
Proof.
  unfold remove_all; rewrite filter_In, negb_true_iff; reflexivity.
Qed.

Lemma agree_on_update fv v vs env env' z :
  agree_on (remove_all (v :: vs) fv) env env' ->
  agree_on (remove_all vs fv) (update env v z) (update env' v z).
Proof.
  intros H u Hu; unfold update.
  destruct (String.eqb u v) eqn:Huv; [reflexivity |].
  apply H, in_remove_all; apply in_remove_all in Hu; cbn.
  rewrite Huv; exact Hu.
Qed.

Lemma agree_on_remove_nil fv env env' :
  agree_on (remove_all [] fv) env env' -> agree_on fv env env'.
Proof.
  intros H v Hv; apply H, in_remove_all; split; [exact Hv | reflexivity].
Qed.

Lemma forall_vars_agree fv (k : valuation -> Prop) :
  (forall env env', agree_on fv env env' -> (k env <-> k env')) ->
  forall vs env env',
    agree_on (remove_all vs fv) env env' ->
    (forall_vars vs env k <-> forall_vars vs env' k).
Proof.
  intros Hk vs; induction vs as [| v vs IH]; cbn; intros env env' H.
  - apply Hk, agree_on_remove_nil, H.
  - split; intros Hall z;
      [apply (IH (update env v z)) | apply (IH (update env v z) (update env' v z))];
      auto using agree_on_update.
Qed.

Lemma exists_vars_agree fv (k : valuation -> Prop) :
  (forall env env', agree_on fv env env' -> (k env <-> k env')) ->
  forall vs env env',
    agree_on (remove_all vs fv) env env' ->
    (exists_vars vs env k <-> exists_vars vs env' k).
Proof.
  intros Hk vs; induction vs as [| v vs IH]; cbn; intros env env' H.
  - apply Hk, agree_on_remove_nil, H.
  - split; intros [z Hz]; exists z;
      [apply (IH (update env v z)) | apply (IH (update env v z) (update env' v z))];
      auto using agree_on_update.
Qed.

(** The truth of a formula depends on the valuation only through the
    formula's free variables. *)
Lemma holds_agree M e :
  forall env env', agree_on (free_vars e) env env' ->
                   (holds M env e <-> holds M env' e).
Proof.
  induction e as [x a b s | a b s | l r | l r IHl IHr | args IHargs | args IHargs
                  | arg IHarg | l r IHl IHr | vs body IHbody | vs body IHbody]
    using BoolRef_nested_ind; cbn [free_vars holds]; intros env env' H.
  - repeat (apply agree_on_app in H; destruct H as [? H]).
    rewrite !(eval_agree M env env') by assumption; reflexivity.
  - repeat (apply agree_on_app in H; destruct H as [? H]).
    rewrite !(eval_agree M env env') by assumption; reflexivity.
  - apply agree_on_app in H; destruct H as [? H].
    rewrite !(eval_agree M env env') by assumption; reflexivity.
  - apply agree_on_app in H; destruct H as [H1 H2].
    rewrite (IHl _ _ H1), (IHr _ _ H2); reflexivity.
  - induction args as [| e' args IH]; [reflexivity |].
    cbn in H; apply agree_on_app in H; destruct H as [H1 H2].
    inversion_clear IHargs as [| ? ? He' Hargs].
    rewrite (He' _ _ H1), (IH Hargs H2); reflexivity.
  - induction args as [| e' args IH]; [reflexivity |].
    cbn in H; apply agree_on_app in H; destruct H as [H1 H2].
    inversion_clear IHargs as [| ? ? He' Hargs].
    rewrite (He' _ _ H1), (IH Hargs H2); reflexivity.
  - rewrite (IHarg _ _ H); reflexivity.
  - apply agree_on_app in H; destruct H as [H1 H2].
    rewrite (IHl _ _ H1), (IHr _ _ H2); reflexivity.
  - apply (forall_vars_agree (free_vars body)); assumption.
  - apply (exists_vars_agree (free_vars body)); assumption.
Qed.

(** A closed formula has one truth value per interpretation of [p], [w]
    and [swap], whatever the constants are taken to be. *)
Lemma holds_closed M e :
  free_vars e = [] -> forall env env', holds M env e <-> holds M env' e.
Proof.
  intros Hfv env env'; apply holds_agree; rewrite Hfv; intros v [].
Qed.

(** ** The seed facts that [introduce_constants] returns *)

Lemma introduce_constants_run (fuel : nat) :
  (6 <= fuel)%nat -> introduce_constants fuel = Done (And seeded_profiles).
Proof.
  intros Hfuel.
  do 6 (destruct fuel as [| fuel]; [lia |]).
  reflexivity.
Qed.

Lemma introduce_constants_short_of_fuel (fuel : nat) :
  (fuel < 6)%nat -> introduce_constants fuel = OutOfFuel.
Proof.
  intros Hfuel.
  do 6 (destruct fuel as [| fuel]; [reflexivity |]).
  lia.
Qed.

(** C1.  [introduce_constants] returns, whenever its loops are given room
    to finish, the conjunction of five profiles and not of thirty-six: the
    outer loop takes (1,2,3) from the iterator, the inner loop takes the
    five orderings that are left, and the outer loop then finds the same
    iterator exhausted.  The states are numbered 1 to 5, agent 1 has the
    ranking 1 > 2 > 3 in each of them, and no state pairs agent 2 with
    (1,2,3). *)
Theorem introduce_constants_five_states :
  (forall fuel : nat, (6 <= fuel)%nat ->
     introduce_constants fuel = Done (And seeded_profiles)) /\
  List.length seeded_profiles = 5%nat /\
  List.length (itertools.permutations [1; 2; 3]) = 6%nat.
Proof.
  split; [exact introduce_constants_run | split; reflexivity].
Qed.

(** ** The submitted formula *)

Lemma models_And_in M args e :
  models M (And args) -> In e args -> models M e.
Proof.
  unfold models; generalize (interp_const M); intros env.
  induction args as [| e' args IH]; cbn; intros H Hin; [contradiction |].
  destruct H as [He' Hargs], Hin as [-> | Hin]; auto.
Qed.

Lemma linearity_swap_condition_unsatisfiable :
  unsatisfiable (And [get_linearity; get_swap_condition]).
Proof.
  intros M HM.
  apply (linearity_swap_condition_clash M);
    apply (models_And_in M _ _ HM); cbn; auto.
Qed.

Lemma main_sentence_no_model (constants : BoolRef) :
  unsatisfiable (main_sentence constants).
Proof.
  intros M HM.
  apply (linearity_swap_condition_clash M);
    apply (models_And_in M _ _ HM); cbn; auto 10.
Qed.

Lemma sentence_without_nondictatorship_no_model (constants : BoolRef) :
  unsatisfiable (sentence_without_nondictatorship constants).
Proof.
  intros M HM.
  apply (linearity_swap_condition_clash M);
    apply (models_And_in M _ _ HM); cbn; auto 10.
Qed.

Lemma main_run (fuel : nat) :
  (6 <= fuel)%nat -> main fuel = Done (main_sentence (And seeded_profiles)).
Proof.
  intros Hfuel; unfold main; rewrite introduce_constants_run by exact Hfuel.
  reflexivity.
Qed.

(** C2.  [main] builds, with the seed facts that [introduce_constants]
    really returns, one formula, and that formula has no model over the
    integers. *)
Theorem main_sentence_unsatisfiable :
  exists formula : BoolRef,
    (forall fuel : nat, (6 <= fuel)%nat -> main fuel = Done formula) /\
    unsatisfiable formula.
Proof.
  exists (main_sentence (And seeded_profiles)); split.
  - exact main_run.
  - apply main_sentence_no_model.
Qed.

(** C3.  The formula of [main] with the non-dictatorship sentence taken out
    has no model either: the linearity sentence and the swap sentence
    already exclude each other, so the formula is not satisfiable. *)
Theorem without_nondictatorship_not_satisfiable :
  exists constants : BoolRef,
    (forall fuel : nat, (6 <= fuel)%nat ->
       introduce_constants fuel = Done constants) /\
    ~ satisfiable (sentence_without_nondictatorship constants) /\
    unsatisfiable (And [get_linearity; get_swap_condition]).
Proof.
  exists (And seeded_profiles); split; [exact introduce_constants_run | split].
  - intros [M HM]; exact (sentence_without_nondictatorship_no_model _ M HM).
  - exact linearity_swap_condition_unsatisfiable.
Qed.

(** ** The swap sentence *)

(** C4, as the sentence has it.  When the queried triple [(x,a,b)] is not
    the swapped triple [(y,a1,b1)] and neither overlap guard of the
    sentence holds, [p(x,a,b,.)] is the same before and after
    [swap(y,a1,b1,.)].  The guards are [second_g] (same agent, same first
    alternative, another second alternative, which the agent ranked below
    [b1]) and [third_g] (same agent, same second alternative, another
    first alternative, which the agent ranked above [a1]); a different
    agent meets neither, and neither does a pair that differs from the
    swapped pair in both places.  Where a guard holds, the sentence does
    not ask for the equivalence. *)
Theorem swap_frame_outside_guards (M : Model) :
  models M get_swap_condition ->
  forall x y a b a1 b1 s : Z,
    x <> y \/ (a, b) <> (a1, b1) ->
    ~ (x = y /\ a = a1 /\ b <> b1 /\ b <> a /\ interp_p M x b1 b s = true) ->
    ~ (x = y /\ b = b1 /\ a <> a1 /\ b <> a /\ interp_p M x a a1 s = true) ->
    (interp_p M x a b (interp_swap M y a1 b1 s) = true <->
     interp_p M x a b s = true).
Proof.
  intros HM x y a b a1 b1 s Hother Hsecond Hthird.
  pose proof (proj1 (swap_condition_reading M) HM) as H.
  destruct (H x y a a1 b b1 s) as [_ [[Hframe _] | [Hg | [Hg | Hg]]]].
  - exact Hframe.
  - destruct Hg as (Hxy & Ha & Hb & _).
    destruct Hother as [Hne | Hne]; [contradiction |].
    exfalso; apply Hne; rewrite Ha, Hb; reflexivity.
  - contradiction.
  - contradiction.
Qed.

(** C6.  The first conjunct of the sentence stands outside the disjunction
    of cases, so it holds at every instance, whichever disjunct does. *)
Theorem swap_basic_effect (M : Model) :
  models M get_swap_condition ->
  forall x a b s : Z,
    interp_p M x a b (interp_swap M x a b s) = true <->
    interp_p M x b a s = true.
Proof.
  intros HM x a b s; exact (swap_condition_basic M HM x a b s).
Qed.

(** C7.  Swapping the same pair twice for the same agent gives back the
    agent's ranking of that pair. *)
Theorem swap_twice (M : Model) :
  models M get_swap_condition ->
  forall x a b s : Z,
    interp_p M x b a (interp_swap M x a b (interp_swap M x a b s)) = true <->
    interp_p M x b a s = true.
Proof.
  intros HM x a b s.
  rewrite (swap_condition_symmetric M HM x b a (interp_swap M x a b _)).
  rewrite (swap_condition_basic M HM).
  rewrite (swap_condition_symmetric M HM x b a (interp_swap M x a b s)).
  apply (swap_condition_basic M HM).
Qed.

(** C4, as claimed, fails: in [overlap_model] agent 0 ranks 0 above 1 in
    state 0 and no longer does after [swap(0,0,0,0)], although the pair
    (0,1) is not the swapped pair (0,0). *)
Lemma swap_frame_fails_on_overlap :
  ~ (forall M : Model, models M get_swap_condition ->
     forall x y a b a1 b1 s : Z,
       x <> y \/ (a, b) <> (a1, b1) ->
       (interp_p M x a b (interp_swap M y a1 b1 s) = true <->
        interp_p M x a b s = true)).
Proof.
  intros H.
  specialize (H overlap_model overlap_model_swap_condition 0 0 0 1 0 0 0).
  cbn in H.
  destruct H as [_ H]; [right; discriminate |].
  discriminate H; reflexivity.
Qed.

Lemma swap_frame_outside_guards_witness :
  models overlap_model get_swap_condition /\
  (1 <> 0 \/ (0, 1) <> (0, 0)) /\
  ~ (1 = 0 /\ 0 = 0 /\ 1 <> 0 /\ 1 <> 0 /\ interp_p overlap_model 1 0 1 0 = true) /\
  ~ (1 = 0 /\ 1 = 0 /\ 0 <> 0 /\ 1 <> 0 /\ interp_p overlap_model 1 0 0 0 = true) /\
  (interp_p overlap_model 1 0 1 (interp_swap overlap_model 0 0 0 0) = true <->
   interp_p overlap_model 1 0 1 0 = true).
Proof.
  assert (H1 : 1 <> 0 \/ (0, 1) <> (0, 0)).
  { left; discriminate. }
  assert (H2 : ~ (1 = 0 /\ 0 = 0 /\ 1 <> 0 /\ 1 <> 0 /\
                  interp_p overlap_model 1 0 1 0 = true)).
  { intros [H _]; discriminate H. }
  assert (H3 : ~ (1 = 0 /\ 1 = 0 /\ 0 <> 0 /\ 1 <> 0 /\
                  interp_p overlap_model 1 0 0 0 = true)).
  { intros [H _]; discriminate H. }
  exact (conj overlap_model_swap_condition
           (conj H1 (conj H2 (conj H3
              (swap_frame_outside_guards overlap_model
                 overlap_model_swap_condition 1 0 0 1 0 0 0 H1 H2 H3))))).
Defined.

Lemma swap_basic_effect_witness :
  models overlap_model get_swap_condition /\
  (interp_p overlap_model 0 0 0 (interp_swap overlap_model 0 0 0 0) = true <->
   interp_p overlap_model 0 0 0 0 = true).
Proof.
  exact (conj overlap_model_swap_condition
           (swap_basic_effect overlap_model overlap_model_swap_condition 0 0 0 0)).
Defined.

Lemma swap_twice_witness :
  models overlap_model get_swap_condition /\
  (interp_p overlap_model 0 0 0
     (interp_swap overlap_model 0 0 0 (interp_swap overlap_model 0 0 0 0)) = true <->
   interp_p overlap_model 0 0 0 0 = true).
Proof.
  exact (conj overlap_model_swap_condition
           (swap_twice overlap_model overlap_model_swap_condition 0 0 0 0)).
Defined.

(** C5.  The guard [Or(Not(x == y), And())] holds in every structure under
    every valuation, because its second argument is the empty conjunction;
    [not_affecting] is therefore equivalent to [swap_part] alone. *)
Theorem neq_part_always_true :
  (forall (M : Model) (env : valuation), holds M env SwapCondition.neq_part <-> True) /\
  equivalent SwapCondition.not_affecting SwapCondition.swap_part.
Proof.
  split; intros M env; cbn; tauto.
Qed.

(** ** The linearity sentence *)

(** C8.  In a model of the linearity sentence no agent ranks [a] above [b]
    and [b] above [a] in one state, and neither does society; with the
    three properties the sentence asserts outright, every [p(x,.,.,s)] and
    every [w(.,.,s)] is a strict total order. *)
Theorem linearity_strict_total_orders (M : Model) :
  models M get_linearity ->
  forall x s : Z,
    strict_total_order (fun a b => interp_p M x a b s) /\
    strict_total_order (fun a b => interp_w M a b s).
Proof.
  intros HM; pose proof (proj1 (linearity_reading M) HM) as H.
  intros x s; split; (split; [| split; [| split]]).
  - intros a b; apply (H x a b s a).
  - intros a b [Hab Hba].
    destruct (H x a b s a) as (_ & [Hirr _] & _ & Htrans & _).
    rewrite (Htrans Hab Hba) in Hirr; discriminate.
  - intros a; apply (H x a a s a).
  - intros a b c; apply (H x a b s c).
  - intros a b; apply (H x a b s a).
  - intros a b [Hab Hba].
    destruct (H x a b s a) as (_ & [_ Hirr] & _ & _ & Htrans).
    rewrite (Htrans Hab Hba) in Hirr; discriminate.
  - intros a; apply (H x a a s a).
  - intros a b c; apply (H x a b s c).
Qed.

Lemma linearity_strict_total_orders_witness :
  models order_model get_linearity /\
  strict_total_order (fun a b => interp_p order_model 1 a b 1) /\
  strict_total_order (fun a b => interp_w order_model a b 1).
Proof.
  exact (conj order_model_linearity
           (linearity_strict_total_orders order_model order_model_linearity 1 1)).
Defined.

(** ** The builders *)

(** C9.  None of the six sentences has a free variable: each occurrence of
    [x], [a], [b], [c], [s], [s1], [s2], [y], [a1] and [b1] lies under a
    quantifier that binds it. *)
Theorem builders_closed :
  Forall (fun e => free_vars e = [])
    [get_linearity; individual_prefs; get_unanimity; get_nondictatorship;
     get_iia; get_swap_condition].
Proof.
  repeat constructor.
Qed.

(** C10.  A model of the IIA sentence is a model of the
    independence-of-profile sentence: if two states agree on every agent's
    ranking of every pair, they agree in particular on the pair in
    question. *)
Theorem iia_entails_individual_prefs (M : Model) :
  models M get_iia -> models M individual_prefs.
Proof.
  intros HM; pose proof (proj1 (iia_reading M) HM) as H.
  apply individual_prefs_reading.
  intros s1 s2 Hsame a b; apply H; intros x; apply Hsame.
Qed.

Lemma iia_entails_individual_prefs_witness :
  models order_model get_iia /\ models order_model individual_prefs.
Proof.
  exact (conj order_model_iia
           (iia_entails_individual_prefs order_model order_model_iia)).
Defined.

(** ** Further facts about the sentences *)

(** In every model of the swap sentence each agent's relation is symmetric
    in every state. *)
Theorem swap_condition_forces_symmetry (M : Model) :
  models M get_swap_condition ->
  forall x a b s : Z, interp_p M x a b s = interp_p M x b a s.
Proof.
  intros HM; exact (swap_condition_symmetric M HM).
Qed.

Lemma swap_condition_forces_symmetry_witness :
  models overlap_model get_swap_condition /\
  interp_p overlap_model 0 0 1 1 = interp_p overlap_model 0 1 0 1.
Proof.
  exact (conj overlap_model_swap_condition
           (swap_condition_forces_symmetry overlap_model
              overlap_model_swap_condition 0 0 1 1)).
Defined.

(** Whatever seed facts are conjoined, the formula of [main] has no model:
    two of its conjuncts exclude each other. *)
Theorem main_sentence_unsatisfiable_for_any_seed :
  forall constants : BoolRef, unsatisfiable (main_sentence constants).
Proof.
  exact main_sentence_no_model.
Qed.

(** The truth of each of the six sentences in a structure does not depend
    on the values the structure gives to the constants [x], [a], ... *)
Theorem builders_ignore_constants :
  Forall (fun e => forall (M : Model) (env env' : valuation),
                     holds M env e <-> holds M env' e)
    [get_linearity; individual_prefs; get_unanimity; get_nondictatorship;
     get_iia; get_swap_condition].
Proof.
  repeat (apply Forall_cons;
          [intros M env env'; apply holds_closed; reflexivity |]).
  apply Forall_nil.
Qed.

(** * The conjuncts one by one *)

(** ** Conjunctions *)

Lemma models_And_intro M args :
  Forall (models M) args -> models M (And args).
Proof.
  unfold models; generalize (interp_const M); intros env H.
  induction H as [| e args He _ IH]; cbn; [exact I | split; assumption].
Qed.

(** ** The formula without the swap sentence *)

Lemma ballot_injective g0 g1 g2 u v :
  1 <= g0 <= 3 -> 1 <= g1 <= 3 -> 1 <= g2 <= 3 ->
  g0 <> g1 -> g0 <> g2 -> g1 <> g2 ->
  ballot g0 g1 g2 u = ballot g0 g1 g2 v -> u = v.
Proof.
  intros H0 H1 H2 H01 H02 H12; unfold ballot.
  destruct (Z.eqb_spec u g0), (Z.eqb_spec u g1), (Z.eqb_spec u g2),
           (Z.eqb_spec v g0), (Z.eqb_spec v g1), (Z.eqb_spec v g2); lia.
Qed.

Lemma second_agent_key_injective s u v :
  second_agent_key s u = second_agent_key s v -> u = v.
Proof.
  unfold second_agent_key.
  destruct (s =? 0); [lia |].
  repeat (match goal with
          | |- context [if ?t then _ else _] => destruct t
          end; [apply ballot_injective; lia |]).
  trivial.
Qed.

Lemma agent_key_injective x s u v :
  agent_key x s u = agent_key x s v -> u = v.
Proof.
  unfold agent_key.
  destruct (x =? 1); [trivial |].
  destruct (x =? 2); [apply second_agent_key_injective |].
  destruct (s =? 0); lia.
Qed.

Lemma welfare_key_injective s u v :
  welfare_key s u = welfare_key s v -> u = v.
Proof. unfold welfare_key; destruct (s =? 0); lia. Qed.

Lemma profile_model_linearity : models profile_model get_linearity.
Proof.
  apply linearity_reading; cbn; intros x a b s c.
  rewrite !Z.ltb_lt, !Z.ltb_ge.
  pose proof (agent_key_injective x s a b).
  pose proof (welfare_key_injective s a b).
  lia.
Qed.

Lemma profile_model_unanimity : models profile_model get_unanimity.
Proof.
  apply unanimity_reading; cbn; intros a b s H.
  pose proof (H 1) as H1; pose proof (H 2) as H2.
  unfold agent_key, second_agent_key, welfare_key in *; cbn in H1, H2.
  destruct (s =? 0); [| exact H1].
  rewrite Z.ltb_lt in *; lia.
Qed.

Lemma profile_model_iia : models profile_model get_iia.
Proof.
  apply iia_reading; cbn; intros a b s1 s2 H.
  pose proof (H 0) as H0.
  unfold agent_key, welfare_key in *; cbn in H0.
  destruct (s1 =? 0), (s2 =? 0); rewrite ?Z.ltb_lt in *; lia.
Qed.

Lemma profile_model_nondictatorship : models profile_model get_nondictatorship.
Proof.
  apply nondictatorship_reading; cbn; intros [x H].
  destruct (Z.eqb_spec x 2) as [-> | Hx2].
  - specialize (H 1 3 2); cbn in H.
    destruct H as [H _]; discriminate (H eq_refl).
  - specialize (H 0 0 1); unfold agent_key, welfare_key in H; cbn in H.
    assert (Hx : (x =? 2) = false) by (apply Z.eqb_neq; exact Hx2).
    rewrite Hx in H; destruct (x =? 1); cbn in H;
      destruct H as [H _]; discriminate (H eq_refl).
Qed.

Lemma profile_model_seeded : models profile_model (And seeded_profiles).
Proof. cbn; tauto. Qed.

(** ** The formula without the linearity sentence *)

Lemma indifferent_model_swap_condition :
  models indifferent_model get_swap_condition.
Proof. apply swap_condition_reading; cbn; tauto. Qed.

Lemma indifferent_model_unanimity : models indifferent_model get_unanimity.
Proof.
  apply unanimity_reading; cbn; intros a b s H.
  discriminate (H 0).
Qed.

Lemma indifferent_model_iia : models indifferent_model get_iia.
Proof. apply iia_reading; cbn; tauto. Qed.

Lemma indifferent_model_nondictatorship :
  models indifferent_model get_nondictatorship.
Proof.
  apply nondictatorship_reading; cbn; intros [x H].
  destruct (x =? 0); cbn in H.
  - destruct (H 0 0 1) as [_ H']; discriminate (H' eq_refl).
  - destruct (H 0 1 0) as [H' _]; discriminate (H' eq_refl).
Qed.

Lemma indifferent_model_seeded : models indifferent_model (And seeded_profiles).
Proof. cbn; tauto. Qed.

Lemma individual_prefs_from_iia (M : Model) :
  models M get_iia -> models M individual_prefs.
Proof.
  intros HM; pose proof (proj1 (iia_reading M) HM) as H.
  apply individual_prefs_reading.
  intros s1 s2 Hsame a b; apply H; intros x; apply Hsame.
Qed.

(** Without the swap sentence the formula of [main], seed facts included,
    has a model: linear rankings, unanimity, non-dictatorship and IIA can
    hold together over the integers, because the states need not cover
    every profile. *)
Theorem without_swap_condition_satisfiable :
  exists constants : BoolRef,
    (forall fuel : nat, (6 <= fuel)%nat ->
       introduce_constants fuel = Done constants) /\
    satisfiable (sentence_without_swap_condition constants).
Proof.
  exists (And seeded_profiles); split; [exact introduce_constants_run |].
  exists profile_model; apply models_And_intro.
  repeat (apply Forall_cons || apply Forall_nil).
  - exact profile_model_linearity.
  - exact (individual_prefs_from_iia profile_model profile_model_iia).
  - exact profile_model_unanimity.
  - exact profile_model_nondictatorship.
  - exact profile_model_iia.
  - exact profile_model_seeded.
Qed.

(** Without the linearity sentence the formula of [main], seed facts
    included, has a model as well; so the formula owes its
    unsatisfiability to these two conjuncts together. *)
Theorem without_linearity_satisfiable :
  exists constants : BoolRef,
    (forall fuel : nat, (6 <= fuel)%nat ->
       introduce_constants fuel = Done constants) /\
    satisfiable (sentence_without_linearity constants).
Proof.
  exists (And seeded_profiles); split; [exact introduce_constants_run |].
  exists indifferent_model; apply models_And_intro.
  repeat (apply Forall_cons || apply Forall_nil).
  - exact (individual_prefs_from_iia indifferent_model indifferent_model_iia).
  - exact indifferent_model_unanimity.
  - exact indifferent_model_nondictatorship.
  - exact indifferent_model_iia.
  - exact indifferent_model_swap_condition.
  - exact indifferent_model_seeded.
Qed.

(** ** Dictators *)

(** A structure in which society always ranks as one agent does satisfies
    the unanimity, IIA and independence-of-profile sentences and violates
    the non-dictatorship sentence. *)
Theorem dictator_satisfies_the_rest (M : Model) :
  (exists x : Z, forall s a b : Z,
      interp_p M x a b s = true <-> interp_w M a b s = true) ->
  models M get_unanimity /\ models M get_iia /\ models M individual_prefs /\
  ~ models M get_nondictatorship.
Proof.
  intros [x Hx].
  assert (Hiia : models M get_iia).
  { apply iia_reading; intros a b s1 s2 H.
    rewrite <- !Hx; apply H. }
  split; [| split; [exact Hiia | split]].
  - apply unanimity_reading; intros a b s H; apply Hx, H.
  - exact (individual_prefs_from_iia M Hiia).
  - intros HN; apply (proj1 (nondictatorship_reading M) HN).
    exists x; exact Hx.
Qed.

Lemma dictator_satisfies_the_rest_witness :
  (exists x : Z, forall s a b : Z,
      interp_p order_model x a b s = true <-> interp_w order_model a b s = true) /\
  models order_model get_unanimity /\ models order_model get_iia /\
  models order_model individual_prefs /\ ~ models order_model get_nondictatorship.
Proof.
  assert (H : exists x : Z, forall s a b : Z,
               interp_p order_model x a b s = true <->
               interp_w order_model a b s = true).
  { exists 1; intros s a b; cbn; tauto. }
  exact (conj H (dictator_satisfies_the_rest order_model H)).
Defined.

(** ** Independence of profile against IIA *)

(** The independence-of-profile sentence does not give the IIA sentence
    back: [label_model] satisfies the first and not the second. *)
Theorem individual_prefs_weaker_than_iia :
  models label_model individual_prefs /\ ~ models label_model get_iia.
Proof.
  split.
  - apply individual_prefs_reading; cbn; intros s1 s2 H a b.
    specialize (H 0 1 0); rewrite !andb_true_r in H; exact H.
  - intros HM; pose proof (proj1 (iia_reading label_model) HM 0 0 0 1) as H.
    cbn in H; destruct H as [H _]; [intros _; tauto |].
    discriminate (H eq_refl).
Qed.

(** ** The guards of the swap sentence *)

(** No two of [first_g], [second_g], [third_g] hold together, in any
    structure under any valuation. *)
Theorem guards_exclude_each_other (M : Model) (env : valuation) :
  ~ (holds M env SwapCondition.first_g /\ holds M env SwapCondition.second_g) /\
  ~ (holds M env SwapCondition.first_g /\ holds M env SwapCondition.third_g) /\
  ~ (holds M env SwapCondition.second_g /\ holds M env SwapCondition.third_g).
Proof.
  cbn; repeat split; intros [H1 H2]; tauto.
Qed.

(** ** The loop nest on any iterator content *)

Lemma for_in_permutations_stop fuel body cs n :
  for_in_permutations (S fuel) body
    {| permutations := []; constant_conditions := cs; curr_state := n |} =
  Done (tt, {| permutations := []; constant_conditions := cs; curr_state := n |}).
Proof. reflexivity. Qed.

Lemma for_in_permutations_step fuel body v rest cs n st' :
  body v {| permutations := rest; constant_conditions := cs; curr_state := n |} =
    Done (tt, st') ->
  for_in_permutations (S fuel) body
    {| permutations := v :: rest; constant_conditions := cs; curr_state := n |} =
  for_in_permutations fuel body st'.
Proof.
  intros H; cbn [for_in_permutations]; unfold bind at 1; cbn.
  unfold bind at 1; rewrite H; reflexivity.
Qed.

Lemma for_in_permutations_raise fuel body v rest cs n :
  body v {| permutations := rest; constant_conditions := cs; curr_state := n |} =
    IndexError ->
  for_in_permutations (S fuel) body
    {| permutations := v :: rest; constant_conditions := cs; curr_state := n |} =
  IndexError.
Proof.
  intros H; cbn [for_in_permutations]; unfold bind at 1; cbn.
  unfold bind at 1; rewrite H; reflexivity.
Qed.

Lemma seed_body_run first_perm second_perm rest cs n :
  long_enough first_perm -> long_enough second_perm ->
  seed_body first_perm second_perm
    {| permutations := rest; constant_conditions := cs; curr_state := n |} =
  Done (tt, {| permutations := rest;
               constant_conditions := cs ++ [profile_of (n + 1) first_perm second_perm];
               curr_state := n + 1 |}).
Proof.
  unfold long_enough; intros Hf Hs.
  destruct first_perm as [| f0 [| f1 [| f2 ft]]]; cbn in Hf; try lia.
  destruct second_perm as [| g0 [| g1 [| g2 gt]]]; cbn in Hs; try lia.
  reflexivity.
Qed.

Lemma seed_body_short first_perm second_perm rest cs n :
  (List.length first_perm < 3)%nat ->
  seed_body first_perm second_perm
    {| permutations := rest; constant_conditions := cs; curr_state := n |} =
  IndexError.
Proof.
  intros Hf.
  destruct first_perm as [| f0 [| f1 [| f2 ft]]]; cbn in Hf; try lia; reflexivity.
Qed.

Lemma inner_loop_run first_perm rest :
  forall fuel cs n,
    long_enough first_perm -> Forall long_enough rest ->
    (List.length rest < fuel)%nat ->
    for_in_permutations fuel (seed_body first_perm)
      {| permutations := rest; constant_conditions := cs; curr_state := n |} =
    Done (tt, {| permutations := [];
                 constant_conditions := cs ++ profiles_from n first_perm rest;
                 curr_state := n + Z.of_nat (List.length rest) |}).
Proof.
  induction rest as [| second_perm rest IH]; intros fuel cs n Hf Hr Hfuel;
    (destruct fuel as [| fuel]; [cbn in Hfuel; lia |]).
  - rewrite for_in_permutations_stop; cbn.
    rewrite app_nil_r, Z.add_0_r; reflexivity.
  - inversion_clear Hr as [| ? ? Hs Hrest].
    rewrite (for_in_permutations_step _ _ _ _ _ _ _
               (seed_body_run first_perm second_perm rest cs n Hf Hs)).
    rewrite IH by (try assumption; cbn in Hfuel; lia).
    cbn [profiles_from List.length].
    rewrite <- app_assoc, Nat2Z.inj_succ; cbn [app].
    replace (n + 1 + Z.of_nat (List.length rest))
      with (n + Z.succ (Z.of_nat (List.length rest))) by lia.
    reflexivity.
Qed.

Lemma introduce_constants_body_loops fuel :
  introduce_constants_body fuel =
  (for_in_permutations fuel (fun first_perm =>
     for_in_permutations fuel (seed_body first_perm)) ;;
   conds <- get_conditions ;;
   ret (And conds)).
Proof. reflexivity. Qed.

(** Whatever the iterator still holds when the loops start, they take its
    first item as agent 1's ranking, append one profile for each further
    item, numbered on from [curr_state], and leave the iterator empty: an
    iterator with [k] pending items gives [k - 1] profiles and not [k * k],
    and an empty one gives none. *)
Theorem loops_pair_first_with_rest (fuel : nat) (pending : list (list Z))
    (cs : list BoolRef) (n : Z) :
  Forall long_enough pending ->
  (List.length pending < fuel)%nat ->
  introduce_constants_body fuel
    {| permutations := pending; constant_conditions := cs; curr_state := n |} =
  Done (And (cs ++ generated_profiles n pending),
        {| permutations := [];
           constant_conditions := cs ++ generated_profiles n pending;
           curr_state := n + Z.of_nat (Nat.pred (List.length pending)) |}).
Proof.
  intros Hp Hfuel; rewrite introduce_constants_body_loops.
  destruct fuel as [| fuel]; [lia |].
  destruct pending as [| first_perm rest]; unfold bind at 1.
  - rewrite for_in_permutations_stop; cbn.
    rewrite app_nil_r, Z.add_0_r; reflexivity.
  - inversion_clear Hp as [| ? ? Hf Hr]; cbn in Hfuel.
    rewrite (for_in_permutations_step _ _ _ _ _ _ _
               (inner_loop_run first_perm rest (S fuel) cs n Hf Hr
                  ltac:(lia))).
    destruct fuel as [| fuel]; [lia |].
    rewrite for_in_permutations_stop; reflexivity.
Qed.

Lemma loops_pair_first_with_rest_witness :
  Forall long_enough [[4; 5; 6]; [7; 8; 9]; [1; 1; 1]] /\
  (List.length [[4; 5; 6]; [7; 8; 9]; [1; 1; 1]] < 4)%nat /\
  introduce_constants_body 4
    {| permutations := [[4; 5; 6]; [7; 8; 9]; [1; 1; 1]];
       constant_conditions := []; curr_state := 10 |} =
  Done (And ([] ++ generated_profiles 10 [[4; 5; 6]; [7; 8; 9]; [1; 1; 1]]),
        {| permutations := [];
           constant_conditions :=
             [] ++ generated_profiles 10 [[4; 5; 6]; [7; 8; 9]; [1; 1; 1]];
           curr_state :=
             10 + Z.of_nat (Nat.pred (List.length [[4; 5; 6]; [7; 8; 9]; [1; 1; 1]])) |}).
Proof.
  assert (H1 : Forall long_enough [[4; 5; 6]; [7; 8; 9]; [1; 1; 1]]).
  { repeat (apply Forall_cons; [unfold long_enough; cbn; lia |]).
    apply Forall_nil. }
  assert (H2 : (List.length [[4; 5; 6]; [7; 8; 9]; [1; 1; 1]] < 4)%nat).
  { cbn; lia. }
  exact (conj H1 (conj H2
           (loops_pair_first_with_rest 4 [[4; 5; 6]; [7; 8; 9]; [1; 1; 1]]
              [] 10 H1 H2))).
Defined.

(** A first item with fewer than three entries makes the loops raise
    IndexError as soon as a second item is there to pair it with; alone in
    the iterator it is never indexed. *)
Theorem short_first_item_raises (fuel : nat) (first_perm second_perm : list Z)
    (rest : list (list Z)) (cs : list BoolRef) (n : Z) :
  (List.length first_perm < 3)%nat ->
  (1 <= fuel)%nat ->
  introduce_constants_body fuel
    {| permutations := first_perm :: second_perm :: rest;
       constant_conditions := cs; curr_state := n |} = IndexError /\
  introduce_constants_body (S fuel)
    {| permutations := [first_perm];
       constant_conditions := cs; curr_state := n |} =
  Done (And cs, {| permutations := []; constant_conditions := cs; curr_state := n |}).
Proof.
  intros Hf Hfuel; rewrite !introduce_constants_body_loops.
  destruct fuel as [| fuel]; [lia |]; split; unfold bind at 1.
  - rewrite (for_in_permutations_raise fuel); [reflexivity |].
    apply for_in_permutations_raise, seed_body_short, Hf.
  - rewrite (for_in_permutations_step (S fuel) _ first_perm [] cs n
               {| permutations := []; constant_conditions := cs; curr_state := n |});
      [| apply for_in_permutations_stop].
    rewrite for_in_permutations_stop; reflexivity.
Qed.

Lemma short_first_item_raises_witness :
  (List.length [1; 2] < 3)%nat /\ (1 <= 1)%nat /\
  introduce_constants_body 1
    {| permutations := [[1; 2]; [2; 1]];
       constant_conditions := []; curr_state := 0 |} = IndexError /\
  introduce_constants_body 2
    {| permutations := [[1; 2]];
       constant_conditions := []; curr_state := 0 |} =
  Done (And [], {| permutations := []; constant_conditions := []; curr_state := 0 |}).
Proof.
  assert (H1 : (List.length [1; 2] < 3)%nat) by (cbn; lia).
  assert (H2 : (1 <= 1)%nat) by lia.
  exact (conj H1 (conj H2
           (short_first_item_raises 1 [1; 2] [2; 1] [] [] 0 H1 H2))).
Defined.

(** ** What a swap does to the swapped pair *)

(** In a model of the swap sentence the agent who swaps [a] and [b] ranks
    them after the swap as before it: since the sentence makes every
    ranking symmetric, the inversion that [basic] asks for changes
    nothing. *)
Theorem swap_keeps_own_pair (M : Model) :
  models M get_swap_condition ->
  forall x a b s : Z,
    interp_p M x a b (interp_swap M x a b s) = interp_p M x a b s.
Proof.
  intros HM x a b s.
  pose proof (swap_condition_basic M HM x a b s) as Hbasic.
  rewrite <- (swap_condition_symmetric M HM x a b s) in Hbasic.
  destruct (interp_p M x a b (interp_swap M x a b s)), (interp_p M x a b s);
    try reflexivity; destruct Hbasic as [H1 H2];
    [symmetry; apply H1 | apply H2]; reflexivity.
Qed.

Lemma swap_keeps_own_pair_witness :
  models overlap_model get_swap_condition /\
  interp_p overlap_model 0 0 0 (interp_swap overlap_model 0 0 0 0) =
  interp_p overlap_model 0 0 0 0.
Proof.
  exact (conj overlap_model_swap_condition
           (swap_keeps_own_pair overlap_model overlap_model_swap_condition 0 0 0 0)).
Defined.
